(** * Starfield generator: the sampling core and the field build

    A shallow embedding of [starfield_generator/__init__.py]: the sphere
    sampler [random_point_in_sphere], the build [generate_starfield] and the
    operator's [execute], over an explicit model of the two pieces of global
    state the code works on, Python's [random] module and the host's
    [bpy.data].

    Conventions.
    - Python floats are modelled as exact rationals ([Q]); rounding, NaN and
      infinities are outside the model. Results are compared with [==].
    - The host API and the [random] module are not part of the repository.
      The generator behind [random.seed] is a parameter of the development
      ([seed_stream]); the host's data is a record of finite maps.
    - [while True] has no bound, so the sampler takes a number of attempts
      it may make ([fuel]) and returns [None] when they are used up. *)

From Stdlib Require Import QArith Qreals Reals Psatz ZArith.
From stdpp Require Import gmap strings list fin_maps pretty.

Local Open Scope Q_scope.

(** ** Vectors ([mathutils.Vector] of three coordinates) *)

Record Vector := mkVector { vx : Q; vy : Q; vz : Q }.

(** [point * radius] *)
Definition vec_scale (p : Vector) (k : Q) : Vector :=
  mkVector (vx p * k) (vy p * k) (vz p * k).

(** The square of [point.length]. *)
Definition length_squared (p : Vector) : Q :=
  vx p * vx p + vy p * vy p + vz p * vz p.

(** [point.length], the Euclidean norm, as a real number. *)
Definition vec_length (p : Vector) : R := sqrt (Q2R (length_squared p)).

(** The test [point.length <= 1.0], decided on the square of the length
    (see [length_le_one_spec]). *)
Definition length_le_one (p : Vector) : bool := Qle_bool (length_squared p) 1.

(** ** The random source (Python's module-level [random] state)

    A state is the sequence of values [random.random()] is going to return,
    each in [[0, 1)] for a real generator, and the number already taken. *)

Record RandomState := mkRandomState { rs_draws : nat -> Q; rs_pos : nat }.

(** [random.random()] *)
Definition random_random (g : RandomState) : Q * RandomState :=
  (rs_draws g (rs_pos g), mkRandomState (rs_draws g) (S (rs_pos g))).

(** [random.uniform(a, b)], that is [a + (b - a) * random()]. *)
Definition random_uniform (a b : Q) (g : RandomState) : Q * RandomState :=
  let (u, g') := random_random g in (a + (b - a) * u, g').

(** A sequence of draws a generator can produce. *)
Definition unit_draws (d : nat -> Q) : Prop := forall n, 0 <= d n /\ d n < 1.

(** ** The sphere sampler *)

(** One pass of the loop body: the candidate [Vector((uniform(-1, 1),
    uniform(-1, 1), uniform(-1, 1)))], its coordinates drawn left to
    right. *)
Definition draw_candidate (g : RandomState) : Vector * RandomState :=
  let (x, g1) := random_uniform (-1) 1 g in
  let (y, g2) := random_uniform (-1) 1 g1 in
  let (z, g3) := random_uniform (-1) 1 g2 in
  (mkVector x y z, g3).

(** [random_point_in_sphere(radius)]; [fuel] bounds the passes of
    [while True]. *)
Fixpoint random_point_in_sphere (fuel : nat) (radius : Q) (g : RandomState)
  : option (Vector * RandomState) :=
  match fuel with
  | O => None
  | S fuel' =>
      let (point, g') := draw_candidate g in
      if length_le_one point then Some (vec_scale point radius, g')
      else random_point_in_sphere fuel' radius g'
  end.

(** ** The host's data ([bpy.data] and the scene)

    Objects are identified by the order of their creation. A collection is
    the sequence of the objects linked to it, in link order. A mesh is its
    list of material slots, a material the two values the node graph is
    built with. *)

Record Object := mkObject {
  ob_name : string;      (* the name asked for at creation *)
  ob_data : string;      (* the mesh, by name *)
  ob_location : Vector;
  ob_scale : Vector
}.

Record Material := mkMaterial {
  mat_brightness_variation : Q;
  mat_base_brightness : Q
}.

Record World := mkWorld {
  w_random : RandomState;
  w_next : nat;
  w_objects : gmap nat Object;
  w_collections : gmap string (list nat);
  w_scene_children : list string;
  w_meshes : gmap string (list string);
  w_materials : gmap string Material
}.

Definition set_random (g : RandomState) (w : World) : World :=
  mkWorld g (w_next w) (w_objects w) (w_collections w) (w_scene_children w)
    (w_meshes w) (w_materials w).

Definition set_objects (n : nat) (os : gmap nat Object) (w : World) : World :=
  mkWorld (w_random w) n os (w_collections w) (w_scene_children w)
    (w_meshes w) (w_materials w).

Definition set_collections (cs : gmap string (list nat)) (w : World) : World :=
  mkWorld (w_random w) (w_next w) (w_objects w) cs (w_scene_children w)
    (w_meshes w) (w_materials w).

Definition set_scene_children (l : list string) (w : World) : World :=
  mkWorld (w_random w) (w_next w) (w_objects w) (w_collections w) l
    (w_meshes w) (w_materials w).

Definition set_meshes (ms : gmap string (list string)) (w : World) : World :=
  mkWorld (w_random w) (w_next w) (w_objects w) (w_collections w)
    (w_scene_children w) ms (w_materials w).

Definition set_materials (ms : gmap string Material) (w : World) : World :=
  mkWorld (w_random w) (w_next w) (w_objects w) (w_collections w)
    (w_scene_children w) (w_meshes w) ms.

(** [list(collection.objects)] *)
Definition collection_objects (w : World) (name : string) : list nat :=
  default [] (w_collections w !! name).

(** [bpy.data.objects.new(name, mesh)]: a new object at the origin with unit
    scale, linked nowhere. *)
Definition objects_new (name mesh : string) (w : World) : nat * World :=
  let id := w_next w in
  (id, set_objects (S id)
         (<[id := mkObject name mesh (mkVector 0 0 0) (mkVector 1 1 1)]>
            (w_objects w)) w).

(** [bpy.data.objects.remove(obj, do_unlink=True)]: the object leaves
    [bpy.data] and every collection it is linked to. *)
Definition objects_remove (id : nat) (w : World) : World :=
  set_collections (filter (λ x, x ≠ id) <$> w_collections w)
    (set_objects (w_next w) (delete id (w_objects w)) w).

(** [obj.location = p] and [obj.scale = s] *)
Definition set_location (id : nat) (p : Vector) (w : World) : World :=
  set_objects (w_next w)
    (alter (λ o, mkObject (ob_name o) (ob_data o) p (ob_scale o)) id
       (w_objects w)) w.

Definition set_scale (id : nat) (s : Vector) (w : World) : World :=
  set_objects (w_next w)
    (alter (λ o, mkObject (ob_name o) (ob_data o) (ob_location o) s) id
       (w_objects w)) w.

(** [collection.objects.link(obj)] *)
Definition objects_link (coll : string) (id : nat) (w : World) : World :=
  set_collections (alter (λ l, l ++ [id]) coll (w_collections w)) w.

(** ** The addon *)

Definition STAR_MESH_NAME : string := "Starfield_StarMesh".
Definition STAR_MATERIAL_NAME : string := "Starfield_StarMaterial".

Record StarfieldSettings := mkSettings {
  star_count : Z;
  field_radius : Q;
  star_size_min : Q;
  star_size_max : Q;
  base_brightness : Q;
  brightness_variation : Q;
  collection_name : string;
  clear_existing : bool;
  random_seed : Z
}.

(** [ensure_collection(scene, name)]; the collection is handled by its
    name. *)
Definition ensure_collection (name : string) (w : World) : World :=
  match w_collections w !! name with
  | Some _ => w
  | None =>
      set_scene_children (w_scene_children w ++ [name])
        (set_collections (<[name := []]> (w_collections w)) w)
  end.

(** [clear_collection(collection)]: the loop runs over a copy of the list
    of linked objects. *)
Definition clear_collection (name : string) (w : World) : World :=
  foldl (λ w' id, objects_remove id w') w (collection_objects w name).

(** [ensure_star_mesh()]: a new mesh has no material slot. *)
Definition ensure_star_mesh (w : World) : World :=
  match w_meshes w !! STAR_MESH_NAME with
  | Some _ => w
  | None => set_meshes (<[STAR_MESH_NAME := []]> (w_meshes w)) w
  end.

(** [ensure_star_material(settings)]: the material is looked up or created
    and its node graph rebuilt from the settings either way. *)
Definition ensure_star_material (s : StarfieldSettings) (w : World) : World :=
  set_materials
    (<[STAR_MATERIAL_NAME :=
         mkMaterial (brightness_variation s) (base_brightness s)]>
       (w_materials w)) w.

(** Lines 161 to 164: the mesh gets the material as its only slot unless
    it has it already. *)
Definition assign_material (w : World) : World :=
  let slots := default [] (w_meshes w !! STAR_MESH_NAME) in
  if existsb (String.eqb STAR_MATERIAL_NAME) slots then w
  else set_meshes (<[STAR_MESH_NAME := [STAR_MATERIAL_NAME]]> (w_meshes w)) w.

(** [f"Star_{i:05d}"] *)
Definition star_name (i : nat) : string :=
  let digits := pretty i in
  "Star_" +:+ String.concat "" (replicate (5 - String.length digits) "0")
    +:+ digits.

(** The body of the [for] loop for index [i]. *)
Definition create_star (fuel : nat) (s : StarfieldSettings) (coll : string)
    (i : nat) (w : World) : option World :=
  let (star, w1) := objects_new (star_name i) STAR_MESH_NAME w in
  match random_point_in_sphere fuel (field_radius s) (w_random w1) with
  | None => None
  | Some (point, g) =>
      let w2 := set_location star point (set_random g w1) in
      let (star_scale, g') :=
        random_uniform (star_size_min s) (star_size_max s) (w_random w2) in
      let w3 :=
        set_scale star (mkVector star_scale star_scale star_scale)
          (set_random g' w2) in
      Some (objects_link coll star w3)
  end.

(** [for i in range(n)], entered at index [i] with [n] passes to go. *)
Fixpoint star_loop (fuel : nat) (s : StarfieldSettings) (coll : string)
    (i n : nat) (w : World) : option World :=
  match n with
  | O => Some w
  | S n' =>
      match create_star fuel s coll i w with
      | None => None
      | Some w' => star_loop fuel s coll (S i) n' w'
      end
  end.

(** Python's two-argument [max]: the first argument unless the second is
    strictly greater. *)
Definition py_max (a b : Q) : Q := if Qle_bool b a then a else b.

Record StarfieldProperties := mkProperties {
  p_collection_name : string;
  p_clear_existing : bool;
  p_star_count : Z;
  p_field_radius : Q;
  p_random_seed : Z;
  p_star_size_min : Q;
  p_star_size_max : Q;
  p_base_brightness : Q;
  p_brightness_variation : Q
}.

(** The settings [execute] builds from the properties (lines 183 to 196). *)
Definition execute_settings (props : StarfieldProperties) : StarfieldSettings :=
  let star_size_min := py_max (1 # 10000) (p_star_size_min props) in
  let star_size_max := py_max star_size_min (p_star_size_max props) in
  mkSettings (p_star_count props) (p_field_radius props)
    star_size_min star_size_max
    (p_base_brightness props) (p_brightness_variation props)
    (p_collection_name props) (p_clear_existing props) (p_random_seed props).

Inductive ReportType := INFO | WARNING | ERROR.
Inductive OperatorStatus := FINISHED | CANCELLED.

Record OperatorResult := mkResult {
  op_reports : list (ReportType * string);
  op_status : OperatorStatus
}.

Section Generator.

(** The generator behind [random.seed]: the draws that follow
    [random.seed(n)]. *)
Variable seed_stream : Z -> nat -> Q.

(** [random.seed(n)] *)
Definition random_seed_state (n : Z) : RandomState :=
  mkRandomState (seed_stream n) 0.

(** [generate_starfield(context, settings)] *)
Definition generate_starfield (fuel : nat) (s : StarfieldSettings) (w : World)
  : option World :=
  let w := set_random (random_seed_state (random_seed s)) w in
  let collection := collection_name s in
  let w := ensure_collection collection w in
  let w := if clear_existing s then clear_collection collection w else w in
  let w := ensure_star_mesh w in
  let w := ensure_star_material s w in
  let w := assign_material w in
  star_loop fuel s collection 0 (Z.to_nat (star_count s)) w.

(** The world the loop of [generate_starfield] starts from (lines 151 to
    164). *)
Definition before_loop (s : StarfieldSettings) (w : World) : World :=
  let w := set_random (random_seed_state (random_seed s)) w in
  let w := ensure_collection (collection_name s) w in
  let w := if clear_existing s then clear_collection (collection_name s) w
           else w in
  assign_material (ensure_star_material s (ensure_star_mesh w)).

(** [STARFIELD_OT_generate.execute(context)] *)
Definition execute (fuel : nat) (props : StarfieldProperties) (w : World)
  : option (OperatorResult * World) :=
  let settings := execute_settings props in
  match generate_starfield fuel settings w with
  | None => None
  | Some w' =>
      Some (mkResult
              [(INFO, "Generated " +:+ pretty (star_count settings)
                        +:+ " stars in '" +:+ collection_name settings
                        +:+ "' collection")]
              FINISHED, w')
  end.

End Generator.

(** ** What a run shows: the stars a build created *)

Record StarPlacement := mkPlacement { position : Vector; scale : Q }.

Definition placement_of (o : Object) : StarPlacement :=
  mkPlacement (ob_location o) (vx (ob_scale o)).

(** The objects of collection [name] in [w'] that did not exist in [w0], in
    link order. *)
Definition created_stars (w0 w' : World) (name : string) : list Object :=
  omap (λ id, w_objects w' !! id)
    (filter (λ id, w_next w0 ≤ id)%nat (collection_objects w' name)).

(** The spec's [build_field]: run [generate_starfield] and read the
    placements off the stars it created. *)
Definition build_field (seed_stream : Z -> nat -> Q) (fuel : nat)
    (s : StarfieldSettings) (w : World) : option (list StarPlacement) :=
  match generate_starfield seed_stream fuel s w with
  | None => None
  | Some w' => Some (placement_of <$> created_stars w w' (collection_name s))
  end.

(** The host hands out object identifiers in increasing order: every object
    that exists or is linked somewhere has an identifier below the next
    one. *)
Definition well_formed (w : World) : Prop :=
  map_Forall (λ _ ids, Forall (λ id, id < w_next w)%nat ids) (w_collections w)
  ∧ map_Forall (λ id _, id < w_next w)%nat (w_objects w).

(** ** The draws behind a build *)

(** The candidate made of the three draws at [pos], [pos + 1], [pos + 2]. *)
Definition candidate (d : nat -> Q) (pos : nat) : Vector :=
  mkVector (-1 + (1 - -1) * d pos)
           (-1 + (1 - -1) * d (S pos))
           (-1 + (1 - -1) * d (S (S pos))).

(** The [k]-th candidate the sampler looks at when started in state [g]. *)
Definition nth_candidate (g : RandomState) (k : nat) : Vector :=
  candidate (rs_draws g) (rs_pos g + 3 * k).

(** Candidate [k] is the first one inside the unit ball. *)
Definition first_accepted (g : RandomState) (k : nat) : Prop :=
  length_le_one (nth_candidate g k) = true
  ∧ ∀ j, (j < k)%nat → length_le_one (nth_candidate g j) = false.

(** A generator never starves the sampler: from every position on, some
    candidate falls inside the unit ball. *)
Definition productive (d : nat -> Q) : Prop :=
  ∀ pos, ∃ k, length_le_one (candidate d (pos + 3 * k)) = true.

(** The algorithm as section 4.1 of the specification words it: draw
    candidates with each coordinate in [[-1, 1]], accept the first one of
    Euclidean length at most 1 (the ones before it are discarded with their
    draws), scale it by [radius]. *)
Definition rejection_sampling_spec (radius : Q) (g : RandomState)
    (result : Vector * RandomState) : Prop :=
  ∃ k,
    (vec_length (nth_candidate g k) <= 1)%R
    ∧ (∀ j, (j < k)%nat → (vec_length (nth_candidate g j) > 1)%R)
    ∧ result = (vec_scale (nth_candidate g k) radius,
                mkRandomState (rs_draws g) (rs_pos g + 3 * S k)).

(** The draws of a build, star by star, from stream position [pos] on: a
    star's position takes the draws [pos .. pos + 3k + 2] (k rejected
    candidates, then the accepted one), its scale the single draw that
    follows, and the next star starts right after. *)
Inductive draw_schedule (d : nat -> Q) (radius size_min size_max : Q)
  : nat -> list StarPlacement -> nat -> Prop :=
| schedule_done pos : draw_schedule d radius size_min size_max pos [] pos
| schedule_star pos k rest pos' :
    length_le_one (candidate d (pos + 3 * k)) = true →
    (∀ j, (j < k)%nat → length_le_one (candidate d (pos + 3 * j)) = false) →
    draw_schedule d radius size_min size_max (pos + 3 * k + 4)%nat rest pos' →
    draw_schedule d radius size_min size_max pos
      (mkPlacement (vec_scale (candidate d (pos + 3 * k)) radius)
                   (size_min + (size_max - size_min) * d (pos + 3 * k + 3)%nat)
       :: rest) pos'.

(** ** Streams and worlds for the examples *)

(** Draws that make the sampler reject [n] candidates from position 0 on
    (coordinate 0.9 three times over) and accept every later one (the later
    draws run through 1/4, 2/4, 3/4, so the coordinates through -0.5, 0,
    0.5). *)
Definition rejecting_stream (n : nat) : nat -> Q :=
  λ i, if (i <? 3 * n)%nat then 19 # 20
       else Z.of_nat (1 + i mod 3) # 4.

(** A generator whose seed is the number of candidates rejected first. *)
Definition example_generator (seed : Z) : nat -> Q :=
  rejecting_stream (Z.to_nat seed).

(** An empty file: no object, no collection. *)
Definition empty_world : World :=
  mkWorld (mkRandomState (λ _, 0) 0) 0 ∅ ∅ [] ∅ ∅.

(** A scene with one object, a cube, linked to the collection Starfield. *)
Definition example_world : World :=
  mkWorld (mkRandomState (λ _, 1 # 3) 5) 1
    {[ 0%nat := mkObject "Cube" "CubeMesh" (mkVector 1 2 3) (mkVector 1 1 1) ]}
    {[ "Starfield" := [0%nat] ]} ["Starfield"] ∅ ∅.

Definition example_settings (clear : bool) : StarfieldSettings :=
  mkSettings 3 10 (1 # 50) (3 # 20) 3 8 "Starfield" clear 2.

(** Supplied sizes the wrong way round: minimum 0.5, maximum 0.1. *)
Definition inverted_properties : StarfieldProperties :=
  mkProperties "Starfield" true 3 10 2 (1 # 2) (1 # 10) 3 8.

(** A scene where the cube is linked to two collections and a lamp to the
    second one only. *)
Definition shared_world : World :=
  mkWorld (mkRandomState (λ _, 1 # 3) 5) 2
    {[ 0%nat := mkObject "Cube" "CubeMesh" (mkVector 1 2 3) (mkVector 1 1 1);
       1%nat := mkObject "Lamp" "LampData" (mkVector 0 0 5) (mkVector 1 1 1) ]}
    {[ "Starfield" := [0%nat]; "Other" := [1; 0]%nat ]}
    ["Starfield"; "Other"]
    {[ STAR_MESH_NAME := ["Glow"; STAR_MATERIAL_NAME] ]} ∅.

Definition no_star_settings : StarfieldSettings :=
  mkSettings (-5) 10 (1 # 50) (3 # 20) 3 8 "Starfield" true 2.


(** * Properties *)

(** ** Lengths *)

Lemma length_squared_nonneg p : 0 <= length_squared p.
Proof.
  unfold length_squared. nra.
Qed.

Lemma length_le_one_spec p :
  length_le_one p = true ↔ (vec_length p <= 1)%R.
Proof.
  unfold length_le_one, vec_length. rewrite Qle_bool_iff.
  pose proof (Qle_Rle _ _ (length_squared_nonneg p)) as Hpos.
  replace (Q2R 0) with 0%R in Hpos by (unfold Q2R; simpl; lra).
  split.
  - intros H. apply Qle_Rle in H.
    replace (Q2R 1) with 1%R in H by (unfold Q2R; simpl; lra).
    rewrite <- sqrt_1. by apply sqrt_le_1_alt.
  - intros H. apply Rle_Qle.
    replace (Q2R 1) with 1%R by (unfold Q2R; simpl; lra).
    rewrite <- (sqrt_sqrt _ Hpos).
    pose proof (sqrt_pos (Q2R (length_squared p))). nra.
Qed.

Lemma length_le_one_false p :
  length_le_one p = false ↔ (vec_length p > 1)%R.
Proof.
  pose proof (length_le_one_spec p) as [H1 H2].
  destruct (length_le_one p); split; intros H; try done.
  - specialize (H1 eq_refl). lra.
  - destruct (Rle_or_lt (vec_length p) 1) as [Hle|Hlt]; [|lra].
    by specialize (H2 Hle).
Qed.


(** ** The sampler *)

Lemma draw_candidate_eq g :
  draw_candidate g
  = (candidate (rs_draws g) (rs_pos g),
     mkRandomState (rs_draws g) (3 + rs_pos g)).
Proof. reflexivity. Qed.

Lemma nth_candidate_0 g : nth_candidate g 0 = candidate (rs_draws g) (rs_pos g).
Proof. unfold nth_candidate. f_equal. lia. Qed.

Lemma nth_candidate_S d pos k :
  nth_candidate (mkRandomState d (3 + pos)) k
  = nth_candidate (mkRandomState d pos) (S k).
Proof. unfold nth_candidate. simpl. f_equal. lia. Qed.

Lemma first_accepted_unique g k1 k2 :
  first_accepted g k1 → first_accepted g k2 → k1 = k2.
Proof.
  intros [Ha1 Hr1] [Ha2 Hr2].
  destruct (Nat.lt_trichotomy k1 k2) as [Hlt|[Heq|Hgt]]; [|done|].
  - rewrite (Hr2 _ Hlt) in Ha1. discriminate.
  - rewrite (Hr1 _ Hgt) in Ha2. discriminate.
Qed.

(** What a run of the sampler with [fuel] attempts does: it either stops at
    the first accepted candidate, which is among the first [fuel] ones, or
    has rejected [fuel] candidates. *)
Lemma sampler_run fuel radius g :
  match random_point_in_sphere fuel radius g with
  | Some (p, g') =>
      ∃ k, (k < fuel)%nat ∧ first_accepted g k
           ∧ p = vec_scale (nth_candidate g k) radius
           ∧ g' = mkRandomState (rs_draws g) (rs_pos g + 3 * S k)
  | None => ∀ j, (j < fuel)%nat → length_le_one (nth_candidate g j) = false
  end.
Proof.
  revert g.
  induction fuel as [|fuel IH]; intros [d pos]; cbn [random_point_in_sphere].
  - intros j Hj. lia.
  - rewrite draw_candidate_eq. cbn [rs_draws rs_pos].
    destruct (length_le_one (candidate d pos)) eqn:Hacc.
    + exists 0%nat. split; [lia|]. split; [split|split].
      * by rewrite nth_candidate_0.
      * intros j Hj. lia.
      * by rewrite nth_candidate_0.
      * cbn [rs_draws rs_pos]. f_equal. lia.
    + specialize (IH (mkRandomState d (3 + pos))).
      destruct (random_point_in_sphere fuel radius (mkRandomState d (3 + pos)))
        as [[p g']|].
      * destruct IH as (k & Hk & [Ha Hr] & -> & ->).
        exists (S k). rewrite nth_candidate_S in Ha.
        split; [lia|]. split; [split|split].
        -- done.
        -- intros [|j] Hj; [by rewrite nth_candidate_0|].
           rewrite <- nth_candidate_S. apply Hr. lia.
        -- by rewrite nth_candidate_S.
        -- cbn [rs_draws rs_pos]. f_equal. lia.
      * intros [|j] Hj; [by rewrite nth_candidate_0|].
        rewrite <- nth_candidate_S. apply IH. lia.
Qed.

Lemma random_point_in_sphere_Some fuel radius g p g' :
  random_point_in_sphere fuel radius g = Some (p, g')
  ↔ ∃ k, (k < fuel)%nat ∧ first_accepted g k
         ∧ p = vec_scale (nth_candidate g k) radius
         ∧ g' = mkRandomState (rs_draws g) (rs_pos g + 3 * S k).
Proof.
  pose proof (sampler_run fuel radius g) as Hrun. split.
  - intros Heq. by rewrite Heq in Hrun.
  - intros (k & Hk & Hfirst & -> & ->).
    destruct (random_point_in_sphere fuel radius g) as [[p g']|].
    + destruct Hrun as (k' & _ & Hfirst' & -> & ->).
      by rewrite (first_accepted_unique _ _ _ Hfirst Hfirst').
    + destruct Hfirst as [Ha _]. rewrite (Hrun _ Hk) in Ha. discriminate.
Qed.

Lemma random_point_in_sphere_None fuel radius g :
  random_point_in_sphere fuel radius g = None
  ↔ ∀ j, (j < fuel)%nat → length_le_one (nth_candidate g j) = false.
Proof.
  pose proof (sampler_run fuel radius g) as Hrun. split.
  - intros Heq. by rewrite Heq in Hrun.
  - intros Hrej. destruct (random_point_in_sphere fuel radius g) as [[p g']|];
      [|done].
    destruct Hrun as (k & Hk & [Ha _] & _). rewrite (Hrej _ Hk) in Ha.
    discriminate.
Qed.

(** More attempts do not change a result. *)
Lemma random_point_in_sphere_mono fuel fuel' radius g r :
  (fuel ≤ fuel')%nat →
  random_point_in_sphere fuel radius g = Some r →
  random_point_in_sphere fuel' radius g = Some r.
Proof.
  destruct r as [p g']. rewrite !random_point_in_sphere_Some.
  intros Hle (k & Hk & H). exists k. split; [lia|done].
Qed.

(** Some candidate is accepted, so there is a first one. *)
Lemma first_accepted_exists g k :
  length_le_one (nth_candidate g k) = true →
  ∃ k0, (k0 ≤ k)%nat ∧ first_accepted g k0.
Proof.
  intros Ha. pose proof (sampler_run (S k) 0 g) as Hrun.
  destruct (random_point_in_sphere (S k) 0 g) as [[p g']|].
  - destruct Hrun as (k0 & Hk0 & Hfirst & _). exists k0. split; [lia|done].
  - rewrite (Hrun k) in Ha; [discriminate|lia].
Qed.

(** ** One pass of the build loop *)

Lemma create_star_Some fuel s coll i w w' :
  create_star fuel s coll i w = Some w'
  ↔ ∃ p g,
      random_point_in_sphere fuel (field_radius s) (w_random w) = Some (p, g)
      ∧ w' =
        let size :=
          star_size_min s
          + (star_size_max s - star_size_min s) * rs_draws g (rs_pos g) in
        mkWorld (mkRandomState (rs_draws g) (S (rs_pos g))) (S (w_next w))
          (<[w_next w :=
               mkObject (star_name i) STAR_MESH_NAME p (mkVector size size size)]>
             (w_objects w))
          (alter (λ l, l ++ [w_next w]) coll (w_collections w))
          (w_scene_children w) (w_meshes w) (w_materials w).
Proof.
  unfold create_star, objects_new.
  cbn [w_random set_objects].
  destruct (random_point_in_sphere fuel (field_radius s) (w_random w))
    as [[p g]|]; [|split; [done|by intros (? & ? & ? & _)]].
  unfold random_uniform, random_random, objects_link, set_scale, set_location,
    set_random, set_collections, set_objects.
  cbn [w_random w_next w_objects w_collections w_scene_children w_meshes
       w_materials].
  rewrite !alter_insert_eq. cbn [ob_name ob_data ob_location ob_scale].
  split.
  - intros [= <-]. by exists p, g.
  - intros (p' & g' & [= <- <-] & ->). done.
Qed.

(** The loop body does not return exactly when the sampler does not. *)
Lemma create_star_None fuel s coll i w :
  create_star fuel s coll i w = None
  ↔ random_point_in_sphere fuel (field_radius s) (w_random w) = None.
Proof.
  destruct (create_star fuel s coll i w) as [w'|] eqn:Hc.
  - apply create_star_Some in Hc as (p & g & -> & _). done.
  - split; [|done]. intros _.
    destruct (random_point_in_sphere fuel (field_radius s) (w_random w))
      as [[p g]|] eqn:Hs; [|done].
    assert (is_Some (create_star fuel s coll i w)) as [w' Hw'].
    { eexists. apply create_star_Some. by exists p, g. }
    congruence.
Qed.

(** ** The build loop *)

Lemma star_loop_spec fuel s coll n : ∀ i w w' old,
  star_loop fuel s coll i n w = Some w' →
  w_collections w !! coll = Some old →
  ∃ ps,
    length ps = n
    ∧ draw_schedule (rs_draws (w_random w)) (field_radius s)
        (star_size_min s) (star_size_max s)
        (rs_pos (w_random w)) ps (rs_pos (w_random w'))
    ∧ rs_draws (w_random w') = rs_draws (w_random w)
    ∧ w_next w' = (w_next w + n)%nat
    ∧ w_collections w' !! coll = Some (old ++ seq (w_next w) n)
    ∧ (∀ c, c ≠ coll → w_collections w' !! c = w_collections w !! c)
    ∧ (∀ id, (id < w_next w)%nat → w_objects w' !! id = w_objects w !! id)
    ∧ placement_of <$> omap (λ id, w_objects w' !! id) (seq (w_next w) n) = ps
    ∧ Forall (λ id, ∃ o, w_objects w' !! id = Some o
                         ∧ ob_data o = STAR_MESH_NAME) (seq (w_next w) n)
    ∧ w_scene_children w' = w_scene_children w
    ∧ w_meshes w' = w_meshes w
    ∧ w_materials w' = w_materials w.
Proof.
  induction n as [|n IH]; intros i w w' old Hloop Hold.
  - injection Hloop as <-. exists []. rewrite app_nil_r, Nat.add_0_r.
    split_and!; try done. constructor.
  - cbn [star_loop] in Hloop.
    destruct (create_star fuel s coll i w) as [w1|] eqn:Hstar; [|done].
    apply create_star_Some in Hstar as (p & g & Hsample & Hw1).
    apply random_point_in_sphere_Some in Hsample
      as (k & _ & [Hacc Hrej] & -> & ->).
    cbn [rs_draws rs_pos] in Hw1. cbv zeta in Hw1.
    assert (w_collections w1 !! coll = Some (old ++ [w_next w])) as Hold1.
    { rewrite Hw1. cbn [w_collections]. by rewrite lookup_alter_eq, Hold. }
    destruct (IH _ _ _ _ Hloop Hold1)
      as (ps & Hlen & Hsched & Hdraws & Hnext & Hcoll & Hother & Hframe
          & Hobjs & Hstars & Hchildren & Hmeshes & Hmaterials).
    rewrite Hw1 in Hsched, Hdraws, Hnext, Hcoll, Hother, Hframe, Hobjs,
      Hstars, Hchildren, Hmeshes, Hmaterials.
    cbn [w_random w_next w_objects w_collections w_scene_children w_meshes
         w_materials rs_draws rs_pos] in *.
    eexists (_ :: ps). split_and!.
    + cbn [length]. by rewrite Hlen.
    + eapply (schedule_star _ _ _ _ _ k); [exact Hacc|exact Hrej|].
      replace (rs_pos (w_random w) + 3 * k + 4)%nat
        with (S (rs_pos (w_random w) + 3 * S k)) by lia.
      exact Hsched.
    + done.
    + lia.
    + rewrite Hcoll, <- app_assoc. done.
    + intros c Hc. rewrite Hother by done. by rewrite lookup_alter_ne.
    + intros id Hid. rewrite Hframe by lia. rewrite lookup_insert_ne by lia.
      done.
    + cbn [seq omap list_omap]. rewrite Hframe by lia.
      rewrite lookup_insert_eq. cbv beta iota. rewrite fmap_cons, Hobjs.
      unfold placement_of at 1. cbn [ob_location ob_scale vx].
      unfold nth_candidate.
      replace (rs_pos (w_random w) + 3 * S k)%nat
        with (rs_pos (w_random w) + 3 * k + 3)%nat by lia.
      done.
    + cbn [seq]. constructor; [|exact Hstars].
      rewrite Hframe by lia. rewrite lookup_insert_eq. by eexists.
    + done.
    + done.
    + done.
Qed.

(** ** Clearing a collection *)

Lemma filter_keeps_all {A} (P : A → Prop) `{∀ x, Decision (P x)} (l : list A) :
  Forall P l → filter P l = l.
Proof.
  induction 1 as [|x l Hx _ IH]; [done|].
  by rewrite filter_cons_True, IH.
Qed.

Lemma filter_drops_all {A} (P : A → Prop) `{∀ x, Decision (P x)} (l : list A) :
  Forall (λ x, ¬ P x) l → filter P l = [].
Proof.
  induction 1 as [|x l Hx _ IH]; [done|].
  by rewrite filter_cons_False, IH.
Qed.

(** [objects_remove] for each identifier of [l] in turn: the identifiers of
    [l] are gone from every collection and from [bpy.data.objects], and
    nothing else has changed. *)
Lemma remove_all_spec l : ∀ w,
  let w' := foldl (λ w' id, objects_remove id w') w l in
  w_random w' = w_random w
  ∧ w_next w' = w_next w
  ∧ (∀ c, w_collections w' !! c
          = filter (λ x, x ∉ l) <$> w_collections w !! c)
  ∧ (∀ id, w_objects w' !! id
           = if decide (id ∈ l) then None else w_objects w !! id)
  ∧ w_scene_children w' = w_scene_children w
  ∧ w_meshes w' = w_meshes w
  ∧ w_materials w' = w_materials w.
Proof.
  induction l as [|a l IH]; intros w; cbn [foldl].
  - repeat split; try done.
    + intros c. destruct (w_collections w !! c) as [ids|]; [|done].
      cbn. f_equal. symmetry. apply filter_keeps_all, Forall_forall.
      intros x _. apply not_elem_of_nil.
  - destruct (IH (objects_remove a w))
      as (Hrandom & Hnext & Hcoll & Hobj & Hchildren & Hmeshes & Hmaterials).
    repeat split; try done.
    + intros c. rewrite Hcoll. unfold objects_remove. cbn [w_collections].
      unfold set_collections. cbn [w_collections]. rewrite lookup_fmap.
      destruct (w_collections w !! c) as [ids|]; [|done].
      cbn. f_equal. rewrite list_filter_filter.
      apply list_filter_iff. intros x. rewrite not_elem_of_cons. tauto.
    + intros id. rewrite Hobj. unfold objects_remove, set_collections,
        set_objects. cbn [w_objects].
      destruct (decide (id ∈ l)) as [Hin|Hnin].
      * rewrite decide_True; [done|by right].
      * destruct (decide (id = a)) as [->|Hne].
        -- rewrite lookup_delete_eq. rewrite decide_True; [done|by left].
        -- rewrite lookup_delete_ne by done.
           rewrite decide_False; [done|].
           rewrite not_elem_of_cons. done.
Qed.

Lemma clear_collection_spec name w :
  let w' := clear_collection name w in
  let ids := collection_objects w name in
  w_random w' = w_random w
  ∧ w_next w' = w_next w
  ∧ (∀ c, w_collections w' !! c
          = filter (λ x, x ∉ ids) <$> w_collections w !! c)
  ∧ (∀ id, w_objects w' !! id
           = if decide (id ∈ ids) then None else w_objects w !! id)
  ∧ w_scene_children w' = w_scene_children w
  ∧ w_meshes w' = w_meshes w
  ∧ w_materials w' = w_materials w.
Proof. apply remove_all_spec. Qed.

(** After the loop of [clear_collection] the collection is empty. *)
Lemma clear_collection_empty name w ids :
  w_collections w !! name = Some ids →
  w_collections (clear_collection name w) !! name = Some [].
Proof.
  intros Hids.
  destruct (clear_collection_spec name w) as (_ & _ & Hcoll & _).
  rewrite Hcoll. unfold collection_objects. rewrite Hids. cbn. f_equal.
  apply filter_drops_all, Forall_forall. intros x Hx Hnx. done.
Qed.

(** ** The clamp of [execute] *)

Lemma py_max_ge_l a b : a <= py_max a b.
Proof.
  unfold py_max. destruct (Qle_bool b a) eqn:E; [apply Qle_refl|].
  apply Qlt_le_weak, Qnot_le_lt. intros Hle.
  apply Qle_bool_iff in Hle. congruence.
Qed.



Lemma execute_settings_range props :
  1 # 10000 <= star_size_min (execute_settings props)
  ∧ star_size_min (execute_settings props)
    <= star_size_max (execute_settings props).
Proof. split; apply py_max_ge_l. Qed.

Lemma well_formed_collection w name :
  well_formed w →
  Forall (λ id, id < w_next w)%nat (collection_objects w name).
Proof.
  intros [Hwf _]. unfold collection_objects.
  destruct (w_collections w !! name) as [ids|] eqn:Hids; [|done].
  exact (Hwf _ _ Hids).
Qed.

(** ** The steps before the loop *)

Section Properties.

Variable seed_stream : Z -> nat -> Q.

Lemma generate_starfield_unfold fuel s w :
  generate_starfield seed_stream fuel s w
  = star_loop fuel s (collection_name s) 0 (Z.to_nat (star_count s))
      (before_loop seed_stream s w).
Proof. reflexivity. Qed.

(** The mesh and material steps touch meshes and materials only. *)
Lemma mesh_material_frame s w :
  let w' := assign_material (ensure_star_material s (ensure_star_mesh w)) in
  w_random w' = w_random w ∧ w_next w' = w_next w
  ∧ w_objects w' = w_objects w ∧ w_collections w' = w_collections w
  ∧ w_scene_children w' = w_scene_children w.
Proof.
  unfold assign_material, ensure_star_material, ensure_star_mesh.
  destruct (w_meshes w !! STAR_MESH_NAME);
    cbn [set_materials set_meshes w_meshes];
    match goal with |- context [existsb ?f ?l] => destruct (existsb f l) end;
    done.
Qed.

Lemma ensure_collection_spec name w :
  let w' := ensure_collection name w in
  w_random w' = w_random w ∧ w_next w' = w_next w
  ∧ w_objects w' = w_objects w
  ∧ w_collections w' !! name = Some (collection_objects w name)
  ∧ (∀ c, c ≠ name → w_collections w' !! c = w_collections w !! c).
Proof.
  unfold ensure_collection, collection_objects.
  destruct (w_collections w !! name) as [ids|] eqn:Hids.
  - by rewrite Hids.
  - cbn. rewrite lookup_insert_eq. repeat split; try done.
    intros c Hc. by rewrite lookup_insert_ne.
Qed.

(** The state the loop starts from: the generator freshly seeded, the
    target collection present, emptied when [clear_existing] is set. *)
Lemma before_loop_spec s w :
  let w' := before_loop seed_stream s w in
  let name := collection_name s in
  let ids := collection_objects w name in
  w_random w' = random_seed_state seed_stream (random_seed s)
  ∧ w_next w' = w_next w
  ∧ w_collections w' !! name
    = Some (if clear_existing s then [] else ids)
  ∧ (∀ c, c ≠ name →
       w_collections w' !! c
       = if clear_existing s
         then filter (λ x, x ∉ ids) <$> w_collections w !! c
         else w_collections w !! c)
  ∧ (∀ id, w_objects w' !! id
           = if clear_existing s
             then (if decide (id ∈ ids) then None else w_objects w !! id)
             else w_objects w !! id).
Proof.
  intros w' name ids. subst w'. unfold before_loop.
  set (w1 := set_random _ w).
  destruct (ensure_collection_spec name w1)
    as (Hr2 & Hn2 & Ho2 & Hc2 & Hother2).
  fold name. set (w2 := ensure_collection name w1) in *.
  assert (collection_objects w2 name = ids) as Hids2.
  { unfold collection_objects at 1. by rewrite Hc2. }
  match goal with
  | |- context [assign_material (ensure_star_material s (ensure_star_mesh ?x))]
    => set (w3 := x)
  end.
  destruct (mesh_material_frame s w3) as (-> & -> & -> & -> & _).
  subst w3. destruct (clear_existing s).
  - destruct (clear_collection_spec name w2)
      as (-> & -> & Hcoll & Hobj & _).
    rewrite Hids2 in Hcoll, Hobj.
    repeat split; try done.
    + by apply (clear_collection_empty _ _ _ Hc2).
    + intros c Hc. by rewrite Hcoll, Hother2.
    + intros id. by rewrite Hobj, Ho2.
  - repeat split; try done. intros id. by rewrite Ho2.
Qed.

(** ** The whole build *)

Lemma generate_starfield_spec fuel s w w' :
  generate_starfield seed_stream fuel s w = Some w' →
  let name := collection_name s in
  let n := Z.to_nat (star_count s) in
  let ids := collection_objects w name in
  ∃ ps,
    length ps = n
    ∧ draw_schedule (seed_stream (random_seed s)) (field_radius s)
        (star_size_min s) (star_size_max s) 0 ps (rs_pos (w_random w'))
    ∧ rs_draws (w_random w') = seed_stream (random_seed s)
    ∧ w_next w' = (w_next w + n)%nat
    ∧ collection_objects w' name
      = (if clear_existing s then [] else ids) ++ seq (w_next w) n
    ∧ placement_of <$> omap (λ id, w_objects w' !! id) (seq (w_next w) n) = ps
    ∧ Forall (λ id, ∃ o, w_objects w' !! id = Some o
                         ∧ ob_data o = STAR_MESH_NAME) (seq (w_next w) n)
    ∧ (∀ id, (id < w_next w)%nat →
         w_objects w' !! id
         = if clear_existing s
           then (if decide (id ∈ ids) then None else w_objects w !! id)
           else w_objects w !! id)
    ∧ (∀ c, c ≠ name →
         w_collections w' !! c
         = if clear_existing s
           then filter (λ x, x ∉ ids) <$> w_collections w !! c
           else w_collections w !! c).
Proof.
  rewrite generate_starfield_unfold. intros Hloop name n ids.
  subst name n ids.
  destruct (before_loop_spec s w) as (Hrandom & Hnext & Hcoll & Hother & Hobj).
  destruct (star_loop_spec _ _ _ _ _ _ _ _ Hloop Hcoll)
    as (ps & Hlen & Hsched & Hdraws & Hnext' & Hcoll' & Hother' & Hframe
        & Hobjs & Hstars & _).
  rewrite Hrandom in Hsched, Hdraws. rewrite Hnext in *.
  cbn [random_seed_state rs_draws rs_pos] in Hsched, Hdraws.
  exists ps. split_and!; try done.
  - unfold collection_objects at 1. by rewrite Hcoll'.
  - intros id Hid. by rewrite Hframe, Hobj.
  - intros c Hc. by rewrite Hother', Hother.
Qed.

(** The stars a build created are the objects it allocated, in order. *)
Lemma build_field_spec fuel s w ps :
  well_formed w →
  build_field seed_stream fuel s w = Some ps →
  ∃ w',
    generate_starfield seed_stream fuel s w = Some w'
    ∧ length ps = Z.to_nat (star_count s)
    ∧ draw_schedule (seed_stream (random_seed s)) (field_radius s)
        (star_size_min s) (star_size_max s) 0 ps (rs_pos (w_random w')).
Proof.
  intros [Hwf _]. unfold build_field.
  destruct (generate_starfield seed_stream fuel s w) as [w'|] eqn:Hgen;
    [|done].
  intros [= <-]. exists w'. split; [done|].
  destruct (generate_starfield_spec _ _ _ _ Hgen)
    as (ps & Hlen & Hsched & _ & _ & Hcoll & Hobjs & _ & _).
  assert (created_stars w w' (collection_name s)
          = omap (λ id, w_objects w' !! id)
              (seq (w_next w) (Z.to_nat (star_count s)))) as ->; [|by rewrite Hobjs].
  unfold created_stars. rewrite Hcoll, filter_app. f_equal.
  rewrite (filter_keeps_all _ (seq _ _)) by (apply Forall_seq; intros; lia).
  rewrite filter_drops_all; [done|].
  destruct (clear_existing s); [done|].
  unfold collection_objects.
  destruct (w_collections w !! collection_name s) as [ids|] eqn:Hids; [|done].
  cbn. eapply Forall_impl; [exact (Hwf _ _ Hids)|].
  cbn. intros id Hid. lia.
Qed.

(** ** Termination of the build *)

Lemma star_loop_total s coll n : ∀ i w,
  productive (rs_draws (w_random w)) →
  ∃ fuel, ∀ fuel', (fuel ≤ fuel')%nat →
    is_Some (star_loop fuel' s coll i n w).
Proof.
  induction n as [|n IH]; intros i w Hprod.
  - exists 0%nat. intros fuel' _. by eexists.
  - destruct (Hprod (rs_pos (w_random w))) as [k Hk].
    destruct (first_accepted_exists (w_random w) k Hk) as (k0 & _ & Hfirst).
    assert (∃ w1, rs_draws (w_random w1) = rs_draws (w_random w)
                  ∧ ∀ fuel', (S k0 ≤ fuel')%nat →
                      create_star fuel' s coll i w = Some w1)
      as (w1 & Hdraws & Hstar).
    { eexists. split; [|intros fuel' Hfuel; apply create_star_Some;
        eexists _, _; split; [|reflexivity];
        apply random_point_in_sphere_Some; exists k0;
        split; [lia|]; split; [exact Hfirst|split; reflexivity]].
      done. }
    rewrite <- Hdraws in Hprod.
    destruct (IH (S i) w1 Hprod) as [fuel1 Hfuel1].
    exists (S k0 `max` fuel1)%nat. intros fuel' Hfuel.
    cbn [star_loop]. rewrite Hstar by lia. apply Hfuel1. lia.
Qed.

Lemma generate_starfield_total s w :
  productive (seed_stream (random_seed s)) →
  ∃ fuel, ∀ fuel', (fuel ≤ fuel')%nat →
    is_Some (generate_starfield seed_stream fuel' s w).
Proof.
  intros Hprod.
  destruct (before_loop_spec s w) as (Hrandom & _).
  destruct (star_loop_total s (collection_name s) (Z.to_nat (star_count s))
              0%nat (before_loop seed_stream s w)) as [fuel Hfuel].
  { by rewrite Hrandom. }
  exists fuel. intros fuel' Hle. rewrite generate_starfield_unfold.
  by apply Hfuel.
Qed.

Lemma build_field_total s w :
  productive (seed_stream (random_seed s)) →
  ∃ fuel, ∀ fuel', (fuel ≤ fuel')%nat →
    is_Some (build_field seed_stream fuel' s w).
Proof.
  intros Hprod. destruct (generate_starfield_total s w Hprod) as [fuel Hfuel].
  exists fuel. intros fuel' Hle. unfold build_field.
  destruct (Hfuel fuel' Hle) as [w' ->]. by eexists.
Qed.

(** ** Facts about schedules *)

Lemma draw_schedule_deterministic d radius a b pos ps1 :
  ∀ ps2 e1 e2,
    draw_schedule d radius a b pos ps1 e1 →
    draw_schedule d radius a b pos ps2 e2 →
    length ps1 = length ps2 →
    ps1 = ps2 ∧ e1 = e2.
Proof.
  intros ps2 e1 e2 H1. revert ps2 e2.
  induction H1 as [pos|pos k rest pos' Hacc Hrej Hrest IH]; intros ps2 e2 H2 Hlen.
  - inversion H2; subst; [done|discriminate].
  - inversion H2 as [|pos2 k2 rest2 pos2' Hacc2 Hrej2 Hrest2]; subst;
      [discriminate|].
    assert (k = k2) as <-.
    { destruct (Nat.lt_trichotomy k k2) as [Hlt|[Heq|Hgt]]; [|done|].
      - rewrite (Hrej2 _ Hlt) in Hacc. discriminate.
      - rewrite (Hrej _ Hgt) in Hacc2. discriminate. }
    injection Hlen as Hlen.
    destruct (IH _ _ Hrest2 Hlen) as [-> ->]. done.
Qed.


Lemma uniform_bounds a b u :
  a <= b → 0 <= u → u <= 1 → a <= a + (b - a) * u ∧ a + (b - a) * u <= b.
Proof. intros Hab H0 H1. split; nra. Qed.

Lemma draw_schedule_sizes d radius a b pos ps e :
  a <= b → unit_draws d →
  draw_schedule d radius a b pos ps e →
  Forall (λ pl, a <= scale pl ∧ scale pl <= b) ps.
Proof.
  intros Hab Hunit. induction 1 as [|pos k rest pos' _ _ _ IH]; [done|].
  constructor; [|done]. cbn [scale].
  destruct (Hunit (pos + 3 * k + 3)%nat) as [H0 H1].
  apply uniform_bounds; [done|done|]. by apply Qlt_le_weak.
Qed.


(** ** The operator *)


(** A generator that starves the sampler stalls the build: with a star to
    create and no candidate ever accepted, no allowance of attempts makes
    [generate_starfield] return. *)
Lemma generate_starfield_starved fuel s w :
  (0 < star_count s)%Z →
  (∀ k, length_le_one (candidate (seed_stream (random_seed s)) (3 * k))
        = false) →
  generate_starfield seed_stream fuel s w = None.
Proof.
  intros Hcount Hstarved. rewrite generate_starfield_unfold.
  destruct (Z.to_nat (star_count s)) as [|n] eqn:Hn; [lia|].
  cbn [star_loop].
  assert (create_star fuel s (collection_name s) 0
            (before_loop seed_stream s w) = None) as ->; [|done].
  apply create_star_None, random_point_in_sphere_None. intros j _.
  destruct (before_loop_spec s w) as (-> & _).
  unfold nth_candidate. cbn [random_seed_state rs_draws rs_pos].
  apply Hstarved.
Qed.

End Properties.

(** ** The streams and worlds of the examples *)

(** Draws between 1/4 and 3/4 give coordinates between -1/2 and 1/2, and
    such a candidate is inside the unit ball. *)
Lemma central_candidate_accepted d pos :
  (∀ i, (pos ≤ i)%nat → 1 # 4 <= d i ∧ d i <= 3 # 4) →
  length_le_one (candidate d pos) = true.
Proof.
  intros Hd. apply Qle_bool_iff. unfold length_squared, candidate.
  cbn [vx vy vz].
  destruct (Hd pos) as [? ?]; [lia|].
  destruct (Hd (S pos)) as [? ?]; [lia|].
  destruct (Hd (S (S pos))) as [? ?]; [lia|].
  nra.
Qed.

Lemma rejecting_stream_late n i :
  (3 * n ≤ i)%nat →
  1 # 4 <= rejecting_stream n i ∧ rejecting_stream n i <= 3 # 4.
Proof.
  intros Hi. unfold rejecting_stream.
  rewrite (proj2 (Nat.ltb_ge _ _)) by done.
  pose proof (Nat.mod_upper_bound i 3 ltac:(lia)) as Hmod.
  unfold Qle. cbn [Qnum Qden]. lia.
Qed.

(** A stream on which the sampler started at position 0 rejects exactly [n]
    candidates. *)
Lemma rejecting_stream_candidates n k :
  let g := mkRandomState (rejecting_stream n) 0 in
  length_le_one (nth_candidate g k) = negb (k <? n)%nat.
Proof.
  unfold nth_candidate. cbn [rs_draws rs_pos].
  destruct (Nat.ltb_spec k n) as [Hlt|Hge]; cbn [negb].
  - unfold candidate, rejecting_stream.
    rewrite !(proj2 (Nat.ltb_lt _ _)) by lia. reflexivity.
  - apply central_candidate_accepted. intros i Hi.
    apply rejecting_stream_late. lia.
Qed.

Lemma rejecting_stream_unit n : unit_draws (rejecting_stream n).
Proof.
  intros i. destruct (Nat.ltb_spec i (3 * n)) as [Hlt|Hge].
  - unfold rejecting_stream. rewrite (proj2 (Nat.ltb_lt _ _)) by done.
    split; lra.
  - destruct (rejecting_stream_late n i Hge). split; lra.
Qed.

Lemma example_generator_productive seed : productive (example_generator seed).
Proof.
  intros pos. exists (Z.to_nat seed). apply central_candidate_accepted.
  intros i Hi. apply rejecting_stream_late. lia.
Qed.

Lemma example_world_well_formed : well_formed example_world.
Proof.
  split; intros i x; unfold example_world;
    cbn [w_collections w_objects w_next];
    intros [<- <-]%lookup_singleton_Some; repeat constructor.
Qed.

Lemma empty_world_well_formed : well_formed empty_world.
Proof. split; apply map_Forall_empty. Qed.

(** ** The code on small inputs *)

Example star_name_padding :
  star_name 7 = "Star_00007"
  ∧ star_name (Z.to_nat 123456) = "Star_123456".
Proof. split; vm_compute; reflexivity. Qed.

(** Two candidates rejected, the third accepted: six draws are discarded,
    the point is (-0.5, 0, 0.5) times the radius, nine draws are consumed. *)
Example sampler_two_retries :
  let g := mkRandomState (rejecting_stream 2) 0 in
  random_point_in_sphere 2 10 g = None
  ∧ random_point_in_sphere 3 10 g
    = Some (mkVector (-20 # 4) (0 # 4) (20 # 4),
            mkRandomState (rejecting_stream 2) 9).
Proof. split; reflexivity. Qed.

(** The scenario of the specification: three stars, radius 10, sizes 1 to
    1, seed 42. *)
Example scenario_seed_42 :
  ∃ ps,
    build_field example_generator 43
      (mkSettings 3 10 1 1 3 8 "Starfield" true 42) empty_world = Some ps
    ∧ length ps = 3%nat
    ∧ Forall (λ pl, scale pl == 1) ps.
Proof.
  eexists. split; [vm_compute; reflexivity|]. split; [reflexivity|].
  repeat (constructor; [reflexivity|]). constructor.
Qed.

Example execute_report :
  fst <$> execute example_generator 3 inverted_properties example_world
  = Some (mkResult [(INFO, "Generated 3 stars in 'Starfield' collection")]
            FINISHED).
Proof. vm_compute. reflexivity. Qed.

(** The cube of [example_world] is removed by a clearing build and kept by
    a build that does not clear. *)
Example clearing_build :
  (λ w', (collection_objects w' "Starfield", w_objects w' !! 0%nat))
    <$> generate_starfield example_generator 3 (example_settings true)
          example_world
  = Some ([1; 2; 3]%nat, None).
Proof. vm_compute. reflexivity. Qed.

Example keeping_build :
  (λ w', (collection_objects w' "Starfield", w_objects w' !! 0%nat))
    <$> generate_starfield example_generator 3 (example_settings false)
          example_world
  = Some ([0; 1; 2; 3]%nat,
          Some (mkObject "Cube" "CubeMesh" (mkVector 1 2 3) (mkVector 1 1 1))).
Proof. vm_compute. reflexivity. Qed.

(** * The claims *)

Section Claims.

Variable seed_stream : Z -> nat -> Q.

(** C1. A build creates exactly [star_count] placements: whenever it
    returns, the stars it created number [star_count] (for every
    [star_count >= 0], so for 0, 1 and 50000), and it does return, given
    enough attempts, when the generator never starves the sampler. *)
Theorem build_field_length s w :
  well_formed w →
  (0 <= star_count s)%Z →
  (∀ fuel ps,
     build_field seed_stream fuel s w = Some ps →
     Z.of_nat (length ps) = star_count s)
  ∧ (productive (seed_stream (random_seed s)) →
     ∃ fuel, ∀ fuel', (fuel ≤ fuel')%nat →
       ∃ ps, build_field seed_stream fuel' s w = Some ps
             ∧ Z.of_nat (length ps) = star_count s).
Proof.
  intros Hwf Hcount.
  assert (∀ fuel ps,
            build_field seed_stream fuel s w = Some ps →
            Z.of_nat (length ps) = star_count s) as Hlength.
  { intros fuel ps Hbuild.
    destruct (build_field_spec _ _ _ _ _ Hwf Hbuild) as (_ & _ & -> & _).
    lia. }
  split; [exact Hlength|].
  intros Hprod. destruct (build_field_total seed_stream s w Hprod) as [fuel Hfuel].
  exists fuel. intros fuel' Hle. destruct (Hfuel fuel' Hle) as [ps Hps].
  exists ps. split; [done|]. by apply (Hlength fuel').
Qed.

(** C2. Two builds whose configurations agree on seed, star count, radius
    and size range return the same placements in the same order, whatever
    the state of the random source and of the scene each started from (the
    source is seeded anew at the start of a build): the sequences of
    positions and of scales are equal element by element. *)
Theorem build_field_deterministic s1 s2 w1 w2 fuel1 fuel2 ps1 ps2 :
  well_formed w1 → well_formed w2 →
  random_seed s1 = random_seed s2 →
  star_count s1 = star_count s2 →
  field_radius s1 = field_radius s2 →
  star_size_min s1 = star_size_min s2 →
  star_size_max s1 = star_size_max s2 →
  build_field seed_stream fuel1 s1 w1 = Some ps1 →
  build_field seed_stream fuel2 s2 w2 = Some ps2 →
  ps1 = ps2
  ∧ position <$> ps1 = position <$> ps2
  ∧ scale <$> ps1 = scale <$> ps2.
Proof.
  intros Hwf1 Hwf2 Hseed Hcount Hradius Hmin Hmax Hb1 Hb2.
  destruct (build_field_spec _ _ _ _ _ Hwf1 Hb1) as (w1' & _ & Hlen1 & Hs1).
  destruct (build_field_spec _ _ _ _ _ Hwf2 Hb2) as (w2' & _ & Hlen2 & Hs2).
  rewrite Hseed, Hradius, Hmin, Hmax in Hs1. rewrite Hcount in Hlen1.
  destruct (draw_schedule_deterministic _ _ _ _ _ _ _ _ _ Hs1 Hs2) as [-> _];
    [congruence|done].
Qed.


(** C4. The sampler is the rejection sampling of the specification: its
    result is the first candidate of Euclidean length at most 1, scaled by
    the radius, with the draws of that candidate and of every candidate
    before it consumed; every such result is returned once enough attempts
    are allowed. A candidate is three successive [uniform(-1, 1)] draws,
    each within [[-1, 1]]. *)
Theorem random_point_in_sphere_rejection_sampling radius g :
  (∀ fuel result,
     random_point_in_sphere fuel radius g = Some result →
     rejection_sampling_spec radius g result)
  ∧ (∀ result,
       rejection_sampling_spec radius g result →
       ∃ fuel, ∀ fuel', (fuel ≤ fuel')%nat →
         random_point_in_sphere fuel' radius g = Some result)
  ∧ (∀ k,
       let at_ i := mkRandomState (rs_draws g) (rs_pos g + 3 * k + i) in
       nth_candidate g k
       = mkVector (random_uniform (-1) 1 (at_ 0%nat)).1
                  (random_uniform (-1) 1 (at_ 1%nat)).1
                  (random_uniform (-1) 1 (at_ 2%nat)).1)
  ∧ (unit_draws (rs_draws g) →
     ∀ k, let c := nth_candidate g k in
          (-1 <= vx c ∧ vx c <= 1) ∧ (-1 <= vy c ∧ vy c <= 1)
          ∧ (-1 <= vz c ∧ vz c <= 1)).
Proof.
  split_and!.
  - intros fuel [p g'] Hsample.
    apply random_point_in_sphere_Some in Hsample
      as (k & _ & [Hacc Hrej] & -> & ->).
    exists k. split_and!; [by apply length_le_one_spec| |done].
    intros j Hj. by apply length_le_one_false, Hrej.
  - intros result (k & Hacc & Hrej & ->). exists (S k). intros fuel' Hle.
    apply random_point_in_sphere_Some. exists k.
    split_and!; [lia| |done|done].
    split; [by apply length_le_one_spec|].
    intros j Hj. by apply length_le_one_false, Hrej.
  - intros k. unfold nth_candidate, candidate, random_uniform, random_random.
    cbn [fst rs_draws rs_pos]. f_equal; do 3 f_equal; lia.
  - intros Hunit k. unfold nth_candidate, candidate. cbn [vx vy vz].
    pose proof (Hunit (rs_pos g + 3 * k)%nat) as [? ?].
    pose proof (Hunit (S (rs_pos g + 3 * k))) as [? ?].
    pose proof (Hunit (S (S (rs_pos g + 3 * k)))) as [? ?].
    split_and!; lra.
Qed.


(** C6. With [size_min <= size_max], as after the clamp of [execute], every
    scale a build draws lies in [[size_min, size_max]]; for the settings
    [execute] builds this holds whatever sizes were supplied. *)
Theorem sampled_scales_within_range :
  (∀ fuel s w ps,
     well_formed w →
     unit_draws (seed_stream (random_seed s)) →
     star_size_min s <= star_size_max s →
     build_field seed_stream fuel s w = Some ps →
     Forall (λ pl, star_size_min s <= scale pl ∧ scale pl <= star_size_max s)
       ps)
  ∧ (∀ fuel props w ps,
       well_formed w →
       unit_draws (seed_stream (p_random_seed props)) →
       let s := execute_settings props in
       build_field seed_stream fuel s w = Some ps →
       Forall (λ pl, star_size_min s <= scale pl ∧ scale pl <= star_size_max s)
         ps).
Proof.
  assert (∀ fuel s w ps,
     well_formed w →
     unit_draws (seed_stream (random_seed s)) →
     star_size_min s <= star_size_max s →
     build_field seed_stream fuel s w = Some ps →
     Forall (λ pl, star_size_min s <= scale pl ∧ scale pl <= star_size_max s)
       ps) as Hrange.
  { intros fuel s w ps Hwf Hunit Hle Hbuild.
    destruct (build_field_spec _ _ _ _ _ Hwf Hbuild) as (w' & _ & _ & Hsched).
    by eapply draw_schedule_sizes. }
  split; [exact Hrange|].
  intros fuel props w ps Hwf Hunit s Hbuild.
  apply (Hrange fuel s w ps); [done|done| |done].
  apply execute_settings_range.
Qed.

(** C7. In every pass of the build loop the position is drawn before the
    scale: the placements of a build follow the draw schedule that starts at
    the first draw after seeding, where each star takes the draws of its
    position first (rejected candidates, then the accepted one), then one
    draw for its scale, and the next star takes the draws after that. *)
Theorem position_drawn_before_scale fuel s w w' :
  well_formed w →
  generate_starfield seed_stream fuel s w = Some w' →
  ∃ ps,
    build_field seed_stream fuel s w = Some ps
    ∧ length ps = Z.to_nat (star_count s)
    ∧ draw_schedule (seed_stream (random_seed s)) (field_radius s)
        (star_size_min s) (star_size_max s) 0 ps (rs_pos (w_random w')).
Proof.
  intros Hwf Hgen.
  assert (is_Some (build_field seed_stream fuel s w)) as [ps Hps].
  { unfold build_field. rewrite Hgen. by eexists. }
  exists ps. split; [done|].
  destruct (build_field_spec _ _ _ _ _ Hwf Hps) as (w'' & Hgen' & Hlen & Hsched).
  rewrite Hgen in Hgen'. injection Hgen' as <-. done.
Qed.

(** C8. The rejection loop has no bound on its retries and no failure
    path: on a stream whose [k]-th candidate has Euclidean length at most 1
    the sampler returns, with the same result for every allowance of more
    than [k] attempts; for every [n] some stream of draws makes it reject
    [n] candidates before it returns; and it fails to return within an
    allowance only by having rejected that many candidates. *)
Theorem random_point_in_sphere_terminates radius :
  (∀ g k,
     (vec_length (nth_candidate g k) <= 1)%R →
     ∃ p g', ∀ fuel, (k < fuel)%nat →
       random_point_in_sphere fuel radius g = Some (p, g'))
  ∧ (∀ n, ∃ g,
       unit_draws (rs_draws g)
       ∧ random_point_in_sphere n radius g = None
       ∧ is_Some (random_point_in_sphere (S n) radius g))
  ∧ (∀ fuel g,
       random_point_in_sphere fuel radius g = None →
       ∀ j, (j < fuel)%nat → (vec_length (nth_candidate g j) > 1)%R).
Proof.
  split_and!.
  - intros g k Hacc. apply length_le_one_spec in Hacc.
    destruct (first_accepted_exists g k Hacc) as (k0 & Hk0 & Hfirst).
    eexists _, _. intros fuel Hfuel.
    apply random_point_in_sphere_Some. exists k0.
    split_and!; [lia|exact Hfirst|reflexivity|reflexivity].
  - intros n. exists (mkRandomState (rejecting_stream n) 0). split_and!.
    + apply rejecting_stream_unit.
    + apply random_point_in_sphere_None. intros j Hj.
      rewrite rejecting_stream_candidates.
      by rewrite (proj2 (Nat.ltb_lt _ _)) by lia.
    + destruct (random_point_in_sphere (S n) radius
                  (mkRandomState (rejecting_stream n) 0)) eqn:Hrun;
        [by eexists|].
      pose proof (proj1 (random_point_in_sphere_None _ _ _) Hrun n) as Hrej.
      rewrite rejecting_stream_candidates in Hrej.
      rewrite (proj2 (Nat.ltb_ge _ _)) in Hrej by lia.
      specialize (Hrej ltac:(lia)). discriminate.
  - intros fuel g Hnone j Hj. apply length_le_one_false.
    by apply (proj1 (random_point_in_sphere_None _ _ _) Hnone).
Qed.

(** C9. For every supplied pair of sizes, the settings [execute] hands to
    the build satisfy [0.0001 <= size_min <= size_max]. *)
Theorem execute_size_range_valid props fuel w :
  let s := execute_settings props in
  1 # 10000 <= star_size_min s
  ∧ star_size_min s <= star_size_max s
  ∧ snd <$> execute seed_stream fuel props w
    = generate_starfield seed_stream fuel s w.
Proof.
  intros s. destruct (execute_settings_range props) as [Hmin Hmax].
  split_and!; [done|done|]. unfold execute. fold s.
  by destruct (generate_starfield seed_stream fuel s w).
Qed.

(** C10. After a build the target collection holds, after the objects it
    keeps, the [star_count] objects the build created (new objects on the
    star mesh). With [clear_existing] it keeps nothing: the collection is
    empty when the loop starts, the objects that were linked to it are
    removed from the host's data and every other object is untouched.
    Without [clear_existing] it keeps what it had, and no object that
    existed before is changed. *)
Theorem generate_starfield_collection fuel s w w' :
  well_formed w →
  generate_starfield seed_stream fuel s w = Some w' →
  let name := collection_name s in
  let old := collection_objects w name in
  let new := seq (w_next w) (Z.to_nat (star_count s)) in
  length new = Z.to_nat (star_count s)
  ∧ Forall (λ id, w_objects w !! id = None
                  ∧ ∃ o, w_objects w' !! id = Some o
                         ∧ ob_data o = STAR_MESH_NAME) new
  ∧ (clear_existing s = true →
     collection_objects (before_loop seed_stream s w) name = []
     ∧ collection_objects w' name = new
     ∧ Forall (λ id, w_objects w' !! id = None) old
     ∧ ∀ id, (id < w_next w)%nat → id ∉ old →
         w_objects w' !! id = w_objects w !! id)
  ∧ (clear_existing s = false →
     collection_objects w' name = old ++ new
     ∧ ∀ id, (id < w_next w)%nat → w_objects w' !! id = w_objects w !! id).
Proof.
  intros Hwf Hgen name old new.
  destruct (generate_starfield_spec _ _ _ _ _ Hgen)
    as (ps & _ & _ & _ & _ & Hcoll & _ & Hstars & Hframe & _).
  fold name old new in Hcoll, Hstars, Hframe.
  split_and!.
  - apply length_seq.
  - apply Forall_forall. intros id Hid. split.
    + destruct (w_objects w !! id) as [o|] eqn:Ho; [|done].
      destruct Hwf as [_ Hobjects]. specialize (Hobjects _ _ Ho).
      apply elem_of_seq in Hid. cbn in Hobjects. lia.
    + by apply (proj1 (Forall_forall _ _) Hstars).
  - intros Hclear. rewrite Hclear in Hcoll, Hframe. split_and!.
    + destruct (before_loop_spec seed_stream s w) as (_ & _ & Hempty & _).
      rewrite Hclear in Hempty. subst name. unfold collection_objects at 1.
      by rewrite Hempty.
    + done.
    + apply Forall_forall. intros id Hid.
      pose proof (proj1 (Forall_forall _ _) (well_formed_collection w name Hwf)
                    id Hid) as Hlt.
      rewrite Hframe by done. by rewrite decide_True.
    + intros id Hlt Hid. rewrite Hframe by done. by rewrite decide_False.
  - intros Hclear. rewrite Hclear in Hcoll, Hframe. done.
Qed.

End Claims.

(** * The claims at concrete inputs

    The generator of the examples rejects two candidates after
    [random.seed(2)]; the scene holds a cube linked to the target
    collection. *)

Lemma build_field_length_witness :
  well_formed example_world
  ∧ (0 <= star_count (example_settings false))%Z
  ∧ productive (example_generator (random_seed (example_settings false)))
  ∧ (∃ ps, build_field example_generator 3 (example_settings false)
             example_world = Some ps
           ∧ Z.of_nat (length ps) = 3%Z)
  ∧ ∃ fuel, ∀ fuel', (fuel ≤ fuel')%nat →
      ∃ ps, build_field example_generator fuel' (example_settings false)
              example_world = Some ps
            ∧ Z.of_nat (length ps) = 3%Z.
Proof.
  assert (0 <= star_count (example_settings false))%Z as Hcount
    by (cbn; lia).
  destruct (build_field_length example_generator (example_settings false)
              example_world example_world_well_formed Hcount)
    as [Hlength Htotal].
  split_and!;
    [apply example_world_well_formed|exact Hcount
    |apply example_generator_productive| |].
  - destruct (build_field example_generator 3 (example_settings false)
                example_world) as [ps|] eqn:Hbuild;
      [|by vm_compute in Hbuild].
    exists ps. split; [done|]. exact (Hlength _ _ Hbuild).
  - exact (Htotal (example_generator_productive _)).
Defined.

Lemma build_field_deterministic_witness :
  ∃ ps1 ps2,
    build_field example_generator 3 (example_settings true) example_world
    = Some ps1
    ∧ build_field example_generator 7 (example_settings false) empty_world
      = Some ps2
    ∧ ps1 = ps2
    ∧ position <$> ps1 = position <$> ps2
    ∧ scale <$> ps1 = scale <$> ps2.
Proof.
  destruct (build_field example_generator 3 (example_settings true)
              example_world) as [ps1|] eqn:Hbuild1;
    [|by vm_compute in Hbuild1].
  destruct (build_field example_generator 7 (example_settings false)
              empty_world) as [ps2|] eqn:Hbuild2;
    [|by vm_compute in Hbuild2].
  exists ps1, ps2. split; [done|]. split; [done|].
  exact (build_field_deterministic example_generator
           (example_settings true) (example_settings false)
           example_world empty_world 3 7 ps1 ps2
           example_world_well_formed empty_world_well_formed
           eq_refl eq_refl eq_refl eq_refl eq_refl Hbuild1 Hbuild2).
Defined.


Lemma random_point_in_sphere_rejection_sampling_witness :
  let g := mkRandomState (rejecting_stream 2) 0 in
  unit_draws (rs_draws g)
  ∧ (∃ result, random_point_in_sphere 3 10 g = Some result
               ∧ rejection_sampling_spec 10 g result)
  ∧ (-1 <= vx (nth_candidate g 0) ∧ vx (nth_candidate g 0) <= 1).
Proof.
  intros g.
  destruct (random_point_in_sphere_rejection_sampling 10 g)
    as (Hsound & _ & _ & Hrange).
  split; [|split].
  - apply rejecting_stream_unit.
  - destruct (random_point_in_sphere 3 10 g) as [result|] eqn:Hrun;
      [|by vm_compute in Hrun].
    exists result. split; [done|]. exact (Hsound _ _ Hrun).
  - exact (proj1 (Hrange (rejecting_stream_unit 2) 0%nat)).
Defined.


Lemma sampled_scales_within_range_witness :
  well_formed example_world
  ∧ unit_draws (example_generator (random_seed (example_settings false)))
  ∧ star_size_min (example_settings false)
    <= star_size_max (example_settings false)
  ∧ ∃ ps, build_field example_generator 3 (example_settings false)
            example_world = Some ps
          ∧ Forall (λ pl, 1 # 50 <= scale pl ∧ scale pl <= 3 # 20) ps.
Proof.
  destruct (sampled_scales_within_range example_generator) as [Hrange _].
  assert (star_size_min (example_settings false)
          <= star_size_max (example_settings false)) as Hle
    by (cbn; unfold Qle; cbn; lia).
  split_and!;
    [apply example_world_well_formed|apply rejecting_stream_unit|exact Hle|].
  destruct (build_field example_generator 3 (example_settings false)
              example_world) as [ps|] eqn:Hbuild;
    [|by vm_compute in Hbuild].
  exists ps. split; [done|].
  exact (Hrange _ _ _ _ example_world_well_formed (rejecting_stream_unit _)
           Hle Hbuild).
Defined.

Lemma position_drawn_before_scale_witness :
  well_formed example_world
  ∧ ∃ w' ps,
      generate_starfield example_generator 3 (example_settings false)
        example_world = Some w'
      ∧ build_field example_generator 3 (example_settings false)
          example_world = Some ps
      ∧ draw_schedule (example_generator 2) 10 (1 # 50) (3 # 20) 0 ps
          (rs_pos (w_random w')).
Proof.
  split; [apply example_world_well_formed|].
  destruct (generate_starfield example_generator 3 (example_settings false)
              example_world) as [w'|] eqn:Hgen; [|by vm_compute in Hgen].
  destruct (position_drawn_before_scale example_generator _ _ _ _
              example_world_well_formed Hgen) as (ps & Hbuild & _ & Hsched).
  exists w', ps. split_and!; [done|exact Hbuild|exact Hsched].
Defined.

Lemma random_point_in_sphere_terminates_witness :
  let g := mkRandomState (rejecting_stream 2) 0 in
  (vec_length (nth_candidate g 2) <= 1)%R
  ∧ ∃ p g', ∀ fuel, (2 < fuel)%nat →
      random_point_in_sphere fuel 10 g = Some (p, g').
Proof.
  intros g.
  assert (vec_length (nth_candidate g 2) <= 1)%R as Hacc
    by (apply length_le_one_spec; vm_compute; reflexivity).
  split; [exact Hacc|].
  exact (proj1 (random_point_in_sphere_terminates 10) g 2%nat Hacc).
Defined.

Lemma generate_starfield_collection_witness :
  well_formed example_world
  ∧ (∃ w', generate_starfield example_generator 3 (example_settings true)
             example_world = Some w'
           ∧ collection_objects w' "Starfield" = [1; 2; 3]%nat
           ∧ w_objects w' !! 0%nat = None)
  ∧ ∃ w', generate_starfield example_generator 3 (example_settings false)
            example_world = Some w'
          ∧ collection_objects w' "Starfield" = [0; 1; 2; 3]%nat
          ∧ w_objects w' !! 0%nat = w_objects example_world !! 0%nat.
Proof.
  split; [apply example_world_well_formed|]. split.
  - destruct (generate_starfield example_generator 3 (example_settings true)
                example_world) as [w'|] eqn:Hgen; [|by vm_compute in Hgen].
    destruct (generate_starfield_collection example_generator _ _ _ _
                example_world_well_formed Hgen) as (_ & _ & Hclear & _).
    destruct (Hclear eq_refl) as (_ & Hcoll & Hremoved & _).
    exists w'. split_and!; [done|exact Hcoll|].
    exact (Forall_inv Hremoved).
  - destruct (generate_starfield example_generator 3 (example_settings false)
                example_world) as [w'|] eqn:Hgen; [|by vm_compute in Hgen].
    destruct (generate_starfield_collection example_generator _ _ _ _
                example_world_well_formed Hgen) as (_ & _ & _ & Hkeep).
    destruct (Hkeep eq_refl) as (Hcoll & Hframe).
    exists w'. split_and!; [done|exact Hcoll|].
    apply Hframe. cbn. lia.
Defined.

(** * Further properties of the code *)

(** ** The sampler at any radius *)



(** ** The objects the loop creates *)


(** ** [ensure_collection] *)


(** ** [clear_collection] *)

(** X3. Clearing a collection deletes its objects from the file, not only from
    the collection: afterwards the collection is still there and empty, no
    collection links any of the deleted objects, every collection keeps its
    other objects in their order, and every object that was not in the
    cleared collection is unchanged. No identifier is reused. *)
Theorem clear_collection_removes_objects name w :
  let w' := clear_collection name w in
  let old := collection_objects w name in
  collection_objects w' name = []
  ∧ (is_Some (w_collections w !! name) → is_Some (w_collections w' !! name))
  ∧ (∀ c, w_collections w' !! c
          = filter (λ id, id ∉ old) <$> w_collections w !! c)
  ∧ (∀ c ids id, w_collections w' !! c = Some ids → id ∈ old → id ∉ ids)
  ∧ (∀ id, id ∈ old → w_objects w' !! id = None)
  ∧ (∀ id, id ∉ old → w_objects w' !! id = w_objects w !! id)
  ∧ w_next w' = w_next w.
Proof.
  intros w' old. subst w'.
  destruct (clear_collection_spec name w) as (_ & Hnext & Hcoll & Hobj & _).
  fold old in Hcoll, Hobj.
  split_and!.
  - unfold collection_objects at 1. rewrite Hcoll. subst old.
    unfold collection_objects.
    destruct (w_collections w !! name) as [ids|]; [|done]. cbn.
    apply filter_drops_all, Forall_forall. intros x Hx Hnx. done.
  - intros [ids Hids]. rewrite Hcoll, Hids. by eexists.
  - done.
  - intros c ids id Hids Hold Hin. rewrite Hcoll in Hids.
    destruct (w_collections w !! c) as [ids0|]; [|done].
    injection Hids as <-. apply list_elem_of_filter in Hin as [Hnot _]. done.
  - intros id Hid. rewrite Hobj. by rewrite decide_True.
  - intros id Hid. rewrite Hobj. by rewrite decide_False.
  - done.
Qed.

(** ** The build: what it leaves behind *)

Section Build.

Variable seed_stream : Z -> nat -> Q.

(** What the mesh and material steps leave behind. *)
Lemma mesh_material_result s w :
  let w' := assign_material (ensure_star_material s (ensure_star_mesh w)) in
  w_materials w'
  = <[STAR_MATERIAL_NAME :=
        mkMaterial (brightness_variation s) (base_brightness s)]>
      (w_materials w)
  ∧ w_meshes w' !! STAR_MESH_NAME
    = Some (let slots := default [] (w_meshes w !! STAR_MESH_NAME) in
            if existsb (String.eqb STAR_MATERIAL_NAME) slots then slots
            else [STAR_MATERIAL_NAME])
  ∧ (∀ m, m ≠ STAR_MESH_NAME → w_meshes w' !! m = w_meshes w !! m).
Proof.
  cbv zeta. unfold ensure_star_mesh.
  destruct (w_meshes w !! STAR_MESH_NAME) as [slots|] eqn:Hslots.
  - unfold assign_material, ensure_star_material, set_materials.
    cbn [w_meshes]. rewrite Hslots. cbn [from_option]. unfold Datatypes.id.
    destruct (existsb (String.eqb STAR_MATERIAL_NAME) slots);
      unfold set_meshes; cbn [w_meshes w_materials].
    + done.
    + split_and!; [done|by rewrite lookup_insert_eq|].
      intros m Hm. by rewrite lookup_insert_ne.
  - unfold assign_material, ensure_star_material, set_materials, set_meshes.
    cbn [w_meshes]. rewrite lookup_insert_eq.
    cbn [from_option]. unfold Datatypes.id. cbn [existsb w_meshes w_materials].
    split_and!; [done|by rewrite lookup_insert_eq|].
    intros m Hm. by rewrite !lookup_insert_ne.
Qed.

(** What the steps before the loop do to the scene, the meshes and the
    materials. *)
Lemma before_loop_setup s w :
  let w' := before_loop seed_stream s w in
  w_scene_children w'
  = (if w_collections w !! collection_name s is Some _
     then w_scene_children w
     else w_scene_children w ++ [collection_name s])
  ∧ w_materials w'
    = <[STAR_MATERIAL_NAME :=
          mkMaterial (brightness_variation s) (base_brightness s)]>
        (w_materials w)
  ∧ w_meshes w' !! STAR_MESH_NAME
    = Some (let slots := default [] (w_meshes w !! STAR_MESH_NAME) in
            if existsb (String.eqb STAR_MATERIAL_NAME) slots then slots
            else [STAR_MATERIAL_NAME])
  ∧ (∀ m, m ≠ STAR_MESH_NAME → w_meshes w' !! m = w_meshes w !! m).
Proof.
  intros w'. subst w'. unfold before_loop.
  set (w1 := set_random _ w).
  set (w2 := ensure_collection (collection_name s) w1).
  assert (w_scene_children w2
          = (if w_collections w !! collection_name s is Some _
             then w_scene_children w
             else w_scene_children w ++ [collection_name s])
          ∧ w_meshes w2 = w_meshes w ∧ w_materials w2 = w_materials w)
    as (Hchildren2 & Hmeshes2 & Hmaterials2).
  { subst w2 w1. unfold ensure_collection. cbn [w_collections set_random].
    by destruct (w_collections w !! collection_name s). }
  set (w3 := if clear_existing s then clear_collection (collection_name s) w2
             else w2).
  assert (w_scene_children w3 = w_scene_children w2
          ∧ w_meshes w3 = w_meshes w2 ∧ w_materials w3 = w_materials w2)
    as (Hchildren3 & Hmeshes3 & Hmaterials3).
  { subst w3. destruct (clear_existing s); [|done].
    by destruct (clear_collection_spec (collection_name s) w2)
      as (_ & _ & _ & _ & ? & ? & ?). }
  rewrite Hchildren2 in Hchildren3. rewrite Hmeshes2 in Hmeshes3.
  rewrite Hmaterials2 in Hmaterials3. clearbody w3.
  destruct (mesh_material_frame s w3) as (_ & _ & _ & _ & ->).
  destruct (mesh_material_result s w3) as (-> & -> & Hother).
  rewrite Hmeshes3, Hmaterials3 in *. done.
Qed.

(** X4. After a build the star mesh exists and carries the star material, which
    holds the brightness values of this build. A mesh that already had the
    material among its slots keeps all its slots; otherwise the material
    becomes its only slot and any other material it had is dropped. Other
    meshes and materials are untouched. *)
Theorem generate_starfield_mesh_material fuel s w w' :
  generate_starfield seed_stream fuel s w = Some w' →
  let slots := default [] (w_meshes w !! STAR_MESH_NAME) in
  (∃ slots', w_meshes w' !! STAR_MESH_NAME = Some slots'
             ∧ STAR_MATERIAL_NAME ∈ slots'
             ∧ (STAR_MATERIAL_NAME ∈ slots → slots' = slots)
             ∧ (STAR_MATERIAL_NAME ∉ slots → slots' = [STAR_MATERIAL_NAME]))
  ∧ w_materials w' !! STAR_MATERIAL_NAME
    = Some (mkMaterial (brightness_variation s) (base_brightness s))
  ∧ (∀ m, m ≠ STAR_MESH_NAME → w_meshes w' !! m = w_meshes w !! m)
  ∧ (∀ m, m ≠ STAR_MATERIAL_NAME →
       w_materials w' !! m = w_materials w !! m).
Proof.
  rewrite generate_starfield_unfold. intros Hloop slots.
  destruct (before_loop_spec seed_stream s w) as (_ & _ & Hcoll & _).
  destruct (star_loop_spec _ _ _ _ _ _ _ _ Hloop Hcoll)
    as (ps & _ & _ & _ & _ & _ & _ & _ & _ & _ & _ & Hmeshes & Hmaterials).
  destruct (before_loop_setup s w) as (_ & Hmat & Hmesh & Hother).
  rewrite Hmeshes, Hmaterials, Hmat.
  assert (existsb (String.eqb STAR_MATERIAL_NAME) slots = true
          ↔ STAR_MATERIAL_NAME ∈ slots) as Hexists.
  { rewrite existsb_exists. split.
    - intros (x & Hx & Heq). apply String.eqb_eq in Heq as <-.
      by apply list_elem_of_In.
    - intros Hin. exists STAR_MATERIAL_NAME. split;
        [by apply list_elem_of_In|apply String.eqb_refl]. }
  split_and!.
  - eexists. split; [exact Hmesh|]. cbv zeta. fold slots.
    destruct (decide (STAR_MATERIAL_NAME ∈ slots)) as [Hin|Hnin].
    + rewrite (proj2 Hexists Hin). done.
    + assert (existsb (String.eqb STAR_MATERIAL_NAME) slots = false) as ->.
      { apply not_true_is_false. intros Htrue. by apply Hexists in Htrue. }
      split_and!; [by left|done|done].
  - by rewrite lookup_insert_eq.
  - done.
  - intros m Hm. by rewrite lookup_insert_ne.
Qed.


Lemma draw_schedule_consumption d radius a b pos ps e :
  draw_schedule d radius a b pos ps e → (pos + 4 * length ps ≤ e)%nat.
Proof.
  induction 1 as [|pos k rest pos' _ _ _ IH]; cbn [length]; lia.
Qed.

(** X5. A build overwrites the module-level random state: what it leaves is
    the seeded stream advanced by the draws of the build, at least four per
    star, and does not depend on the random state or the scene the build
    found. *)
Theorem generate_starfield_random_state fuel1 fuel2 s w1 w2 w1' w2' :
  generate_starfield seed_stream fuel1 s w1 = Some w1' →
  generate_starfield seed_stream fuel2 s w2 = Some w2' →
  w_random w1' = w_random w2'
  ∧ rs_draws (w_random w1') = seed_stream (random_seed s)
  ∧ (4 * Z.to_nat (star_count s) ≤ rs_pos (w_random w1'))%nat.
Proof.
  intros Hgen1 Hgen2.
  destruct (generate_starfield_spec _ _ _ _ _ Hgen1)
    as (ps1 & Hlen1 & Hsched1 & Hdraws1 & _).
  destruct (generate_starfield_spec _ _ _ _ _ Hgen2)
    as (ps2 & Hlen2 & Hsched2 & Hdraws2 & _).
  destruct (draw_schedule_deterministic _ _ _ _ _ _ _ _ _ Hsched1 Hsched2)
    as [_ Hpos]; [congruence|].
  pose proof (draw_schedule_consumption _ _ _ _ _ _ _ Hsched1) as Hcons.
  split_and!; [|done|lia].
  destruct (w_random w1') as [d1 p1], (w_random w2') as [d2 p2].
  cbn [rs_draws rs_pos] in *. congruence.
Qed.



(** X7. With a star count of zero or less the loop body never runs: the build
    returns without a single attempt of the sampler and creates no object,
    but it has reseeded the random source, made sure the collection exists
    and, with [clear_existing], deleted what the collection held. *)
Theorem generate_starfield_no_stars s w :
  (star_count s <= 0)%Z →
  ∃ w',
    (∀ fuel, generate_starfield seed_stream fuel s w = Some w')
    ∧ w_next w' = w_next w
    ∧ w_random w' = random_seed_state seed_stream (random_seed s)
    ∧ w_collections w' !! collection_name s
      = Some (if clear_existing s then []
              else collection_objects w (collection_name s))
    ∧ (clear_existing s = true →
       ∀ id, id ∈ collection_objects w (collection_name s) →
         w_objects w' !! id = None).
Proof.
  intros Hcount. exists (before_loop seed_stream s w).
  destruct (before_loop_spec seed_stream s w)
    as (Hrandom & Hnext & Hcoll & _ & Hobj).
  split_and!; try done.
  - intros fuel. rewrite generate_starfield_unfold.
    replace (Z.to_nat (star_count s)) with 0%nat by lia. done.
  - intros Hclear id Hid. rewrite Hobj, Hclear. by rewrite decide_True.
Qed.

(** ** The operator *)

(** X8. The clamp of [execute] leaves a valid size range as it is (supplied
    minimum at least 0.0001 and at most the supplied maximum), copies every
    other property unchanged, and applied to its own result changes
    nothing. *)
Theorem execute_settings_clamp props :
  let s := execute_settings props in
  (1 # 10000 <= p_star_size_min props →
   p_star_size_min props <= p_star_size_max props →
   star_size_min s == p_star_size_min props
   ∧ star_size_max s == p_star_size_max props)
  ∧ (star_count s = p_star_count props
     ∧ field_radius s = p_field_radius props
     ∧ random_seed s = p_random_seed props
     ∧ collection_name s = p_collection_name props
     ∧ clear_existing s = p_clear_existing props
     ∧ base_brightness s = p_base_brightness props
     ∧ brightness_variation s = p_brightness_variation props)
  ∧ py_max (1 # 10000) (star_size_min s) = star_size_min s
  ∧ py_max (star_size_min s) (star_size_max s) = star_size_max s.
Proof.
  intros s. subst s. cbn [execute_settings star_size_min star_size_max
    star_count field_radius random_seed collection_name clear_existing
    base_brightness brightness_variation].
  split_and!; try done.
  - intros Hmin Hle.
    assert (py_max (1 # 10000) (p_star_size_min props)
            == p_star_size_min props) as Hkept.
    { unfold py_max.
      destruct (Qle_bool (p_star_size_min props) (1 # 10000)) eqn:E;
        [|reflexivity].
      apply Qle_bool_iff in E. by apply Qle_antisym. }
    split; [done|]. unfold py_max at 1.
    destruct (Qle_bool (p_star_size_max props)
                (py_max (1 # 10000) (p_star_size_min props))) eqn:E;
      [|reflexivity].
    apply Qle_bool_iff in E. rewrite Hkept in *. by apply Qle_antisym.
  - unfold py_max.
    destruct (Qle_bool (p_star_size_min props) (1 # 10000)) eqn:E.
    + reflexivity.
    + by rewrite E.
  - set (a := py_max (1 # 10000) (p_star_size_min props)).
    unfold py_max.
    destruct (Qle_bool (p_star_size_max props) a) eqn:E.
    + assert (Qle_bool a a = true) as -> by (apply Qle_bool_iff, Qle_refl).
      done.
    + by rewrite E.
Qed.


End Build.

(** ** More on the build *)

Section MoreBuild.

Variable seed_stream : Z -> nat -> Q.

(** X10. A build without [clear_existing] leaves every other collection as it
    is. With [clear_existing] the other collections lose the objects they
    shared with the target collection, which are deleted, and keep their
    other objects in order. *)
Theorem generate_starfield_other_collections fuel s w w' c :
  generate_starfield seed_stream fuel s w = Some w' →
  c ≠ collection_name s →
  w_collections w' !! c
  = if clear_existing s
    then filter (λ id, id ∉ collection_objects w (collection_name s))
           <$> w_collections w !! c
    else w_collections w !! c.
Proof.
  intros Hgen Hc.
  destruct (generate_starfield_spec _ _ _ _ _ Hgen)
    as (ps & _ & _ & _ & _ & _ & _ & _ & _ & Hother).
  by apply Hother.
Qed.

End MoreBuild.

(** ** The further properties at concrete inputs *)

Lemma shared_world_well_formed : well_formed shared_world.
Proof.
  split; intros i x; unfold shared_world;
    cbn [w_collections w_objects w_next];
    intros [[<- <-]|[_ [<- <-]%lookup_singleton_Some]]%lookup_insert_Some;
    repeat constructor.
Qed.


Lemma generate_starfield_mesh_material_witness :
  (∃ w', generate_starfield example_generator 3 (example_settings true)
           shared_world = Some w'
         ∧ w_meshes w' !! STAR_MESH_NAME
           = Some ["Glow"; STAR_MATERIAL_NAME]
         ∧ w_materials w' !! STAR_MATERIAL_NAME = Some (mkMaterial 8 3))
  ∧ ∃ w', generate_starfield example_generator 3 (example_settings true)
            empty_world = Some w'
          ∧ w_meshes w' !! STAR_MESH_NAME = Some [STAR_MATERIAL_NAME].
Proof.
  split.
  - destruct (generate_starfield example_generator 3 (example_settings true)
                shared_world) as [w'|] eqn:Hgen; [|by vm_compute in Hgen].
    destruct (generate_starfield_mesh_material example_generator
                _ _ _ _ Hgen) as ((slots' & Hslots & _ & Hkept & _) & Hmat & _).
    exists w'. split_and!; [done| |exact Hmat].
    rewrite Hslots. f_equal. apply Hkept. vm_compute. by right; left.
  - destruct (generate_starfield example_generator 3 (example_settings true)
                empty_world) as [w'|] eqn:Hgen; [|by vm_compute in Hgen].
    destruct (generate_starfield_mesh_material example_generator
                _ _ _ _ Hgen) as ((slots' & Hslots & _ & _ & Hnew) & _).
    exists w'. split; [done|].
    rewrite Hslots. f_equal. apply Hnew. vm_compute. apply not_elem_of_nil.
Defined.

Lemma generate_starfield_random_state_witness :
  ∃ w1' w2',
    generate_starfield example_generator 3 (example_settings true)
      shared_world = Some w1'
    ∧ generate_starfield example_generator 5 (example_settings true)
        empty_world = Some w2'
    ∧ w_random w1' = w_random w2'
    ∧ (12 ≤ rs_pos (w_random w1'))%nat.
Proof.
  destruct (generate_starfield example_generator 3 (example_settings true)
              shared_world) as [w1'|] eqn:H1; [|by vm_compute in H1].
  destruct (generate_starfield example_generator 5 (example_settings true)
              empty_world) as [w2'|] eqn:H2; [|by vm_compute in H2].
  destruct (generate_starfield_random_state example_generator
              _ _ _ _ _ _ _ H1 H2) as (Hsame & _ & Hpos).
  exists w1', w2'.
  split; [reflexivity|]. split; [reflexivity|]. split; [exact Hsame|].
  exact Hpos.
Defined.


Lemma generate_starfield_no_stars_witness :
  (star_count no_star_settings <= 0)%Z
  ∧ ∃ w',
      generate_starfield example_generator 0 no_star_settings shared_world
      = Some w'
      ∧ w_next w' = 2%nat
      ∧ w_collections w' !! "Starfield" = Some []
      ∧ w_objects w' !! 0%nat = None.
Proof.
  assert (star_count no_star_settings <= 0)%Z as Hcount by (cbn; lia).
  split; [exact Hcount|].
  destruct (generate_starfield_no_stars example_generator no_star_settings
              shared_world Hcount) as (w' & Hgen & Hnext & _ & Hcoll & Hgone).
  exists w'. split_and!; [apply Hgen|exact Hnext|exact Hcoll|].
  apply (Hgone eq_refl). vm_compute. by left.
Defined.


Lemma generate_starfield_other_collections_witness :
  "Other" ≠ collection_name (example_settings true)
  ∧ (∃ w', generate_starfield example_generator 3 (example_settings true)
             shared_world = Some w'
           ∧ w_collections w' !! "Other" = Some [1%nat])
  ∧ ∃ w', generate_starfield example_generator 3 (example_settings false)
            shared_world = Some w'
          ∧ w_collections w' !! "Other" = Some [1; 0]%nat.
Proof.
  assert ("Other" ≠ collection_name (example_settings true)) as Hne by done.
  split; [exact Hne|]. split.
  - destruct (generate_starfield example_generator 3 (example_settings true)
                shared_world) as [w'|] eqn:Hgen; [|by vm_compute in Hgen].
    exists w'. split; [done|].
    rewrite (generate_starfield_other_collections example_generator
               _ _ _ _ _ Hgen Hne).
    vm_compute. reflexivity.
  - destruct (generate_starfield example_generator 3 (example_settings false)
                shared_world) as [w'|] eqn:Hgen; [|by vm_compute in Hgen].
    exists w'. split; [done|].
    rewrite (generate_starfield_other_collections example_generator
               _ _ _ _ _ Hgen Hne).
    vm_compute. reflexivity.
Defined.
